(** * Maze grid utilities of [common.c]: bounds check, neighbour lookup and
      grid initialisation, embedded over an explicit model of the maze
      storage. *)

From stdpp Require Import base tactics numbers list list_numbers.

Local Open Scope Z_scope.

(* ===================================================================== *)
(** ** Machine integers *)
(* ===================================================================== *)

(** The C type [int] is a 32-bit signed integer.  Values are carried as [Z];
    the arithmetic of the source ([row - 1], [i++], ...) is followed by the
    two's-complement wrap-around, written out in [wrap].  (C leaves signed
    overflow undefined; the wrap-around is the result the usual targets
    produce.  Inside a grid with [int] dimensions no operation of
    [common.c] overflows, see [int_offset_spec] and [for_loop_writes].) *)
Module Int.

Definition min_int : Z := - 2 ^ 31.
Definition max_int : Z := 2 ^ 31 - 1.

Definition in_range (z : Z) : Prop := min_int <= z <= max_int.

Definition wrap (z : Z) : Z := (z + 2 ^ 31) mod 2 ^ 32 - 2 ^ 31.

Definition add (a b : Z) : Z := wrap (a + b).
Definition sub (a b : Z) : Z := wrap (a - b).

End Int.

(* ===================================================================== *)
(** ** Declarations of [common.h] *)
(* ===================================================================== *)

(** Modelled from the spec: the [Direction] enumeration of [common.h], which
    is not part of the sources at hand.  It has exactly the four variants
    North, South, West, East, in that order. *)
Inductive Direction : Type := NORTH | SOUTH | WEST | EAST.

(** Modelled from the spec: [struct maze_room] of [common.h], which is not
    part of the sources at hand.  A room has integer coordinates [row] and
    [col], four integer wall slots and an integer [visited] flag; the field
    names are those the designated initialiser of [initialize_maze] uses. *)
Record maze_room : Type := Build_maze_room {
  row : Z;
  col : Z;
  walls : list Z;
  visited : Z
}.

(* ===================================================================== *)
(** ** Storage, pointers and the computation monad *)
(* ===================================================================== *)

(** The storage behind the parameter [maze]: the rooms of the array in
    row-major order, as a C two-dimensional array lays them out. *)
Abbreviation mem := (list maze_room).

(** A [struct maze_room *]: the null pointer, or the address of the room
    [ofs] elements after [&maze[0][0]]. *)
Inductive ptr : Type :=
| NULL
| Cell (ofs : Z).

(** What running a piece of code on a storage produces: a value together with
    the storage it leaves, an access outside the storage, or an exhausted
    step budget. *)
Inductive outcome (A : Type) : Type :=
| Done (a : A) (m : mem)
| Fault
| OutOfFuel.
Arguments Done {A} a m.
Arguments Fault {A}.
Arguments OutOfFuel {A}.

Definition M (A : Type) : Type := mem -> outcome A.

Definition ret {A} (a : A) : M A := fun m => Done a m.

Definition bind {A B} (c : M A) (k : A -> M B) : M B :=
  fun m =>
    match c m with
    | Done a m' => k a m'
    | Fault => Fault
    | OutOfFuel => OutOfFuel
    end.

Declare Scope maze_scope.
Delimit Scope maze_scope with maze.
Notation "x <- c ;; k" := (bind c (fun x => k))
  (at level 100, c at next level, right associativity) : maze_scope.
Notation "c ;;; k" := (bind c (fun _ => k))
  (at level 100, right associativity) : maze_scope.
Local Open Scope maze_scope.

(** [p->f]: read field [f] of the room [p] points to. *)
Definition rd (f : maze_room -> Z) (p : ptr) : M Z :=
  fun m =>
    match p with
    | NULL => Fault
    | Cell ofs =>
        if 0 <=? ofs then
          match m !! Z.to_nat ofs with
          | Some r => Done (f r) m
          | None => Fault
          end
        else Fault
    end.

(** [*p = v]: overwrite the room [p] points to. *)
Definition store (p : ptr) (v : maze_room) : M unit :=
  fun m =>
    match p with
    | NULL => Fault
    | Cell ofs =>
        if (0 <=? ofs) && (ofs <? Z.of_nat (length m)) then
          Done tt (<[Z.to_nat ofs := v]> m)
        else Fault
    end.

(** [&maze[i][j]] for [struct maze_room maze[num_rows][num_cols]]. *)
Definition maze_at (num_cols i j : Z) : ptr := Cell (i * num_cols + j).

(* ===================================================================== *)
(** ** The functions of [common.c] *)
(* ===================================================================== *)

Definition is_in_range (row col num_rows num_cols : Z) : Z :=
  if (row >=? num_rows) || (row <? 0) || (col >=? num_cols) || (col <? 0)
  then 0
  else 1.

Definition get_neighbor (num_rows num_cols : Z) (room : ptr) (dir : Direction)
  : M ptr :=
  match dir with
  | NORTH =>
      r <- rd row room ;; c <- rd col room ;;
      if is_in_range (Int.sub r 1) c num_rows num_cols =? 1 then
        r' <- rd row room ;; c' <- rd col room ;;
        ret (maze_at num_cols (Int.sub r' 1) c')
      else ret NULL
  | SOUTH =>
      r <- rd row room ;; c <- rd col room ;;
      if is_in_range (Int.add r 1) c num_rows num_cols =? 1 then
        r' <- rd row room ;; c' <- rd col room ;;
        ret (maze_at num_cols (Int.add r' 1) c')
      else ret NULL
  | WEST =>
      r <- rd row room ;; c <- rd col room ;;
      if is_in_range r (Int.sub c 1) num_rows num_cols =? 1 then
        r' <- rd row room ;; c' <- rd col room ;;
        ret (maze_at num_cols r' (Int.sub c' 1))
      else ret NULL
  | EAST =>
      r <- rd row room ;; c <- rd col room ;;
      if is_in_range r (Int.add c 1) num_rows num_cols =? 1 then
        r' <- rd row room ;; c' <- rd col room ;;
        ret (maze_at num_cols r' (Int.add c' 1))
      else ret NULL
  end.

(** [for (int i = start; i < bound; i++) body(i);] with a step budget: each
    test of the loop condition costs one unit. *)
Fixpoint for_loop (fuel : nat) (i bound : Z) (body : Z -> M unit) : M unit :=
  match fuel with
  | O => fun _ => OutOfFuel
  | S fuel' =>
      if i <? bound then
        body i ;;; for_loop fuel' (Int.add i 1) bound body
      else ret tt
  end.

Definition initialize_maze (fuel : nat) (num_rows num_cols : Z) : M unit :=
  for_loop fuel 0 num_rows (fun i =>
    for_loop fuel 0 num_cols (fun j =>
      let rooms :=
        {| row := i; col := j; walls := [-1; -1; -1; -1]; visited := 0 |} in
      store (maze_at num_cols i j) rooms)).

(* ===================================================================== *)
(** ** Vocabulary of the specification *)
(* ===================================================================== *)

(** The coordinate one step away, in the words of the specification:
    North is row-1, South is row+1, West is col-1, East is col+1. *)
Definition spec_offset (dir : Direction) (i j : Z) : Z * Z :=
  match dir with
  | NORTH => (i - 1, j)
  | SOUTH => (i + 1, j)
  | WEST => (i, j - 1)
  | EAST => (i, j + 1)
  end.

Definition inside (R C : Z) (p : Z * Z) : Prop :=
  0 <= p.1 < R /\ 0 <= p.2 < C.

(** The storage holds exactly [R * C] rooms. *)
Definition grid_of_size (R C : Z) (m : mem) : Prop :=
  Z.of_nat (length m) = R * C.

(** The room stored at position (i, j) of the storage. *)
Definition room_at (C : Z) (m : mem) (i j : Z) : option maze_room :=
  m !! Z.to_nat (i * C + j).

(** Every room records its own position. *)
Definition records_positions (R C : Z) (m : mem) : Prop :=
  forall i j, 0 <= i < R -> 0 <= j < C ->
    exists rm, room_at C m i j = Some rm /\ row rm = i /\ col rm = j.

(** The room [initialize_maze] writes at (i, j). *)
Definition fresh_room (i j : Z) : maze_room :=
  {| row := i; col := j; walls := [-1; -1; -1; -1]; visited := 0 |}.

(** The direction leading back, in the words of the specification: North
    and South cancel each other, and so do West and East. *)
Definition opposite (dir : Direction) : Direction :=
  match dir with
  | NORTH => SOUTH
  | SOUTH => NORTH
  | WEST => EAST
  | EAST => WEST
  end.

(* ===================================================================== *)
(** ** Auxiliary definitions of the proofs *)
(* ===================================================================== *)

(** The coordinate [get_neighbor] computes, with the arithmetic of [int]. *)
Definition int_offset (dir : Direction) (r c : Z) : Z * Z :=
  match dir with
  | NORTH => (Int.sub r 1, c)
  | SOUTH => (Int.add r 1, c)
  | WEST => (r, Int.sub c 1)
  | EAST => (r, Int.add c 1)
  end.

(** A sequence of stores, in program order. *)
Fixpoint run_writes (W : list (Z * maze_room)) : M unit :=
  match W with
  | [] => ret tt
  | w :: W' => store (Cell w.1) w.2 ;;; run_writes W'
  end.

(** What position [k] holds after the stores of [W], when it held [d]
    before: the value of the last store to [k]. *)
Fixpoint final (W : list (Z * maze_room)) (k : nat) (d : option maze_room)
  : option maze_room :=
  match W with
  | [] => d
  | w :: W' => final W' k (if decide (Z.to_nat w.1 = k) then Some w.2 else d)
  end.

(** The stores of one pass of the inner loop, and of the whole function. *)
Definition row_writes (C i : Z) : list (Z * maze_room) :=
  seqZ 0 C ≫= (fun j => [(i * C + j, fresh_room i j)]).

Definition all_writes (R C : Z) : list (Z * maze_room) :=
  seqZ 0 R ≫= row_writes C.

(** A step budget that lets both loops of [initialize_maze] run to their
    end. *)
Definition enough (fuel : nat) (R C : Z) : Prop :=
  (Z.to_nat R < fuel)%nat /\ (Z.to_nat C < fuel)%nat.

(* ===================================================================== *)
(** ** Sample storages *)
(* ===================================================================== *)

(** A room as uninitialised storage may hold it. *)
Definition junk : maze_room :=
  {| row := 7; col := -3; walls := [4; 0]; visited := 5 |}.

(** A 2 x 2 grid as [initialize_maze] leaves it. *)
Definition grid2x2 : mem :=
  [fresh_room 0 0; fresh_room 0 1; fresh_room 1 0; fresh_room 1 1].

(* ===================================================================== *)
(** ** Machine integers: no wrap-around inside the range *)
(* ===================================================================== *)

Lemma wrap_in_range z : Int.in_range z -> Int.wrap z = z.
Proof.
  unfold Int.in_range, Int.min_int, Int.max_int, Int.wrap. intros Hz.
  rewrite Z.mod_small by lia. lia.
Qed.

Lemma add_small a b : Int.in_range (a + b) -> Int.add a b = a + b.
Proof. apply wrap_in_range. Qed.

Lemma sub_small a b : Int.in_range (a - b) -> Int.sub a b = a - b.
Proof. apply wrap_in_range. Qed.

(* ===================================================================== *)
(** ** Bounds check *)
(* ===================================================================== *)

Lemma is_in_range_true row col num_rows num_cols :
  is_in_range row col num_rows num_cols = 1 <->
  0 <= row < num_rows /\ 0 <= col < num_cols.
Proof.
  unfold is_in_range.
  destruct (Z.geb_spec row num_rows), (Z.ltb_spec row 0),
    (Z.geb_spec col num_cols), (Z.ltb_spec col 0); simpl; split;
    intros; try lia; try discriminate.
Qed.

Lemma is_in_range_bool row col num_rows num_cols :
  is_in_range row col num_rows num_cols = 0 \/
  is_in_range row col num_rows num_cols = 1.
Proof. unfold is_in_range. case (_ || _); auto. Qed.

(** C2. For all integers [row], [col], [num_rows], [num_cols], negative and
    far out of range included, [is_in_range] returns 1 (true) exactly when
    [0 <= row < num_rows] and [0 <= col < num_cols], and 0 (false) in every
    other case; it is a total function of its four arguments, with no
    storage to act on and no failure outcome. *)
Theorem is_in_range_iff (row col num_rows num_cols : Z) :
  (is_in_range row col num_rows num_cols = 1 <->
     0 <= row < num_rows /\ 0 <= col < num_cols) /\
  (is_in_range row col num_rows num_cols = 0 <->
     ~ (0 <= row < num_rows /\ 0 <= col < num_cols)).
Proof.
  split; [apply is_in_range_true|].
  rewrite <- is_in_range_true.
  destruct (is_in_range_bool row col num_rows num_cols) as [H|H];
    rewrite H; split; intros; try done.
Qed.

(* ===================================================================== *)
(** ** Neighbour lookup *)
(* ===================================================================== *)

Lemma rd_some f ofs (m : mem) rm :
  0 <= ofs -> m !! Z.to_nat ofs = Some rm -> rd f (Cell ofs) m = Done (f rm) m.
Proof.
  intros Hofs Hrm. unfold rd.
  destruct (Z.leb_spec 0 ofs); [|lia]. by rewrite Hrm.
Qed.

Lemma rd_outcome f p (m : mem) :
  rd f p m = Fault \/ exists z, rd f p m = Done z m.
Proof.
  unfold rd. destruct p as [|ofs]; [by left|].
  destruct (0 <=? ofs); [|by left].
  destruct (m !! Z.to_nat ofs); eauto.
Qed.

(** The lookup on a readable room, in one equation. *)
Lemma get_neighbor_some num_rows num_cols ofs dir (m : mem) rm :
  0 <= ofs -> m !! Z.to_nat ofs = Some rm ->
  get_neighbor num_rows num_cols (Cell ofs) dir m =
    Done (if is_in_range (int_offset dir (row rm) (col rm)).1
               (int_offset dir (row rm) (col rm)).2 num_rows num_cols =? 1
          then maze_at num_cols (int_offset dir (row rm) (col rm)).1
                 (int_offset dir (row rm) (col rm)).2
          else NULL) m.
Proof.
  intros Hofs Hrm.
  destruct dir; unfold get_neighbor, bind;
    rewrite !(rd_some _ _ _ _ Hofs Hrm); cbn [int_offset fst snd];
    (case (_ =? 1); [rewrite !(rd_some _ _ _ _ Hofs Hrm)|]); reflexivity.
Qed.

(** Inside the grid the arithmetic of [int] is the arithmetic of the
    specification. *)
Lemma int_offset_spec R C dir i j :
  Int.in_range R -> Int.in_range C -> 0 <= i < R -> 0 <= j < C ->
  int_offset dir i j = spec_offset dir i j.
Proof.
  unfold Int.in_range, Int.min_int, Int.max_int. intros HR HC Hi Hj.
  destruct dir; simpl; f_equal;
    (apply sub_small || apply add_small);
    unfold Int.in_range, Int.min_int, Int.max_int; lia.
Qed.

Lemma in_range_inside R C p :
  (is_in_range p.1 p.2 R C =? 1) = true <-> inside R C p.
Proof. rewrite Z.eqb_eq. apply is_in_range_true. Qed.

Lemma maze_at_nonneg C i j : 0 <= i -> 0 <= j -> 0 <= C -> 0 <= i * C + j.
Proof. nia. Qed.

(** The lookup from position (i, j) of a grid whose rooms record their
    positions. *)
Lemma get_neighbor_grid R C (m : mem) i j dir :
  Int.in_range R -> Int.in_range C -> records_positions R C m ->
  0 <= i < R -> 0 <= j < C ->
  get_neighbor R C (maze_at C i j) dir m =
    Done (if is_in_range (spec_offset dir i j).1 (spec_offset dir i j).2 R C =? 1
          then maze_at C (spec_offset dir i j).1 (spec_offset dir i j).2
          else NULL) m.
Proof.
  intros HR HC Hpos Hi Hj.
  destruct (Hpos i j Hi Hj) as (rm & Hrm & Hrow & Hcol).
  unfold maze_at at 1.
  rewrite (get_neighbor_some R C _ dir m rm); [|nia|exact Hrm].
  rewrite Hrow, Hcol. by rewrite (int_offset_spec R C).
Qed.

(** C1. On a grid of size R x C whose rooms record their own positions, for
    the room at any position (i, j) of the grid and any direction:
    [get_neighbor] returns NULL exactly when the coordinate one step away
    (North row-1, South row+1, West col-1, East col+1) lies outside
    [0,R) x [0,C); otherwise it returns the address of the grid's room at
    that coordinate, and that room records that coordinate. *)
Theorem get_neighbor_correct (R C : Z) (m : mem) (i j : Z) (dir : Direction) :
  Int.in_range R -> Int.in_range C ->
  grid_of_size R C m -> records_positions R C m ->
  0 <= i < R -> 0 <= j < C ->
  (get_neighbor R C (maze_at C i j) dir m = Done NULL m <->
     ~ inside R C (spec_offset dir i j)) /\
  (inside R C (spec_offset dir i j) ->
     get_neighbor R C (maze_at C i j) dir m =
       Done (maze_at C (spec_offset dir i j).1 (spec_offset dir i j).2) m /\
     exists rm,
       room_at C m (spec_offset dir i j).1 (spec_offset dir i j).2 = Some rm /\
       row rm = (spec_offset dir i j).1 /\ col rm = (spec_offset dir i j).2).
Proof.
  intros HR HC _ Hpos Hi Hj.
  rewrite (get_neighbor_grid R C m i j dir HR HC Hpos Hi Hj).
  pose proof (in_range_inside R C (spec_offset dir i j)) as Hin.
  destruct (is_in_range _ _ R C =? 1) eqn:E.
  - assert (inside R C (spec_offset dir i j)) as Hins by by apply Hin.
    split.
    + split; [discriminate|done].
    + intros _. split; [done|].
      destruct Hins as [H1 H2]. apply (Hpos _ _ H1 H2).
  - assert (~ inside R C (spec_offset dir i j)) as Hout.
    { intros Hins. apply Hin in Hins. discriminate. }
    split; [done|]. intros Hins. by destruct Hout.
Qed.

Lemma spec_offset_opposite dir i j :
  spec_offset (opposite dir) (spec_offset dir i j).1 (spec_offset dir i j).2
  = (i, j).
Proof. destruct dir; simpl; f_equal; lia. Qed.

(** C4. On a grid whose rooms record their own positions, for the room at
    any position of the grid: whenever a lookup in one direction succeeds
    (returns a room, not NULL), the lookup from the room it returned in the
    opposite direction returns the original room; this holds for each of the
    pairs North/South, South/North, West/East and East/West. *)
Theorem get_neighbor_round_trip (R C : Z) (m : mem) (i j : Z)
    (dir : Direction) (q : ptr) :
  Int.in_range R -> Int.in_range C ->
  grid_of_size R C m -> records_positions R C m ->
  0 <= i < R -> 0 <= j < C ->
  get_neighbor R C (maze_at C i j) dir m = Done q m -> q <> NULL ->
  get_neighbor R C q (opposite dir) m = Done (maze_at C i j) m.
Proof.
  intros HR HC _ Hpos Hi Hj.
  rewrite (get_neighbor_grid R C m i j dir HR HC Hpos Hi Hj).
  pose proof (in_range_inside R C (spec_offset dir i j)) as Hin.
  destruct (is_in_range _ _ R C =? 1) eqn:E; intros [= <-] Hq; [|done].
  assert (inside R C (spec_offset dir i j)) as [H1 H2] by by apply Hin.
  rewrite (get_neighbor_grid R C m _ _ (opposite dir) HR HC Hpos H1 H2).
  rewrite spec_offset_opposite. simpl.
  assert ((is_in_range i j R C =? 1) = true) as ->; [|done].
  by apply (in_range_inside R C (i, j)).
Qed.

Lemma get_neighbor_outcome num_rows num_cols room dir (m : mem) :
  get_neighbor num_rows num_cols room dir m = Fault \/
  exists q, get_neighbor num_rows num_cols room dir m = Done q m.
Proof.
  destruct room as [|ofs].
  { left. by destruct dir. }
  destruct (Z.leb_spec 0 ofs) as [Hofs|Hofs].
  - destruct (m !! Z.to_nat ofs) as [rm|] eqn:Hrm.
    + right. eexists. by apply get_neighbor_some.
    + left. destruct dir; unfold get_neighbor, bind, rd;
        (destruct (Z.leb_spec 0 ofs); [|lia]); by rewrite Hrm.
  - left. destruct dir; unfold get_neighbor, bind, rd;
      by (destruct (Z.leb_spec 0 ofs); [lia|]).
Qed.

(** C7. [get_neighbor] has no side effect: for every storage, every room
    pointer and every direction, the storage a call leaves is the storage
    it was given, so the grid and the input room are as before the call. *)
Theorem get_neighbor_pure (num_rows num_cols : Z) (room : ptr)
    (dir : Direction) (m m' : mem) (q : ptr) :
  get_neighbor num_rows num_cols room dir m = Done q m' -> m' = m.
Proof.
  destruct (get_neighbor_outcome num_rows num_cols room dir m) as [H|[q' H]];
    rewrite H; [discriminate|]. by intros [= _ <-].
Qed.

(* ===================================================================== *)
(** ** Sequences of stores *)
(* ===================================================================== *)

Lemma store_outcome ofs v (m : mem) :
  store (Cell ofs) v m =
    if (0 <=? ofs) && (ofs <? Z.of_nat (length m))
    then Done tt (<[Z.to_nat ofs := v]> m) else Fault.
Proof. reflexivity. Qed.

Lemma bind_ret_tt (c : M unit) (m : mem) : (c ;;; ret tt) m = c m.
Proof. unfold bind, ret. by destruct (c m) as [[] ?| |]. Qed.

Lemma run_writes_app W1 W2 (m : mem) :
  run_writes (W1 ++ W2) m = (run_writes W1 ;;; run_writes W2) m.
Proof.
  revert m. induction W1 as [|w W1 IH]; intros m; [done|].
  simpl. unfold bind.
  destruct (store (Cell w.1) w.2 m) as [[] m1| |]; [|done..].
  rewrite IH. reflexivity.
Qed.

Lemma run_writes_terminates W (m : mem) : run_writes W m <> OutOfFuel.
Proof.
  revert m. induction W as [|w W IH]; intros m; [done|].
  simpl. unfold bind. rewrite store_outcome.
  destruct (_ && _); [apply IH|done].
Qed.

(** A run of stores succeeds exactly when every address is in bounds. *)
Lemma run_writes_in_bounds W (m : mem) :
  Forall (fun w => 0 <= w.1 < Z.of_nat (length m)) W ->
  exists m', run_writes W m = Done tt m'.
Proof.
  revert m. induction W as [|w W IH]; intros m HW; [by eexists|].
  inversion HW as [|? ? Hw HW']; subst.
  simpl. unfold bind. rewrite store_outcome.
  destruct (Z.leb_spec 0 w.1); [|lia].
  destruct (Z.ltb_spec w.1 (Z.of_nat (length m))); [|lia]. simpl.
  apply IH. eapply Forall_impl; [exact HW'|].
  intros w'; cbn beta; by rewrite length_insert.
Qed.

Lemma run_writes_done W (m m' : mem) :
  run_writes W m = Done tt m' ->
  length m' = length m /\
  Forall (fun w => 0 <= w.1 < Z.of_nat (length m)) W /\
  forall k, m' !! k = final W k (m !! k).
Proof.
  revert m. induction W as [|w W IH]; intros m.
  { intros [= <-]. by repeat split. }
  simpl. unfold bind. rewrite store_outcome.
  destruct (Z.leb_spec 0 w.1); [|done].
  destruct (Z.ltb_spec w.1 (Z.of_nat (length m))); [|done]. simpl.
  intros Hrun. destruct (IH _ Hrun) as (Hlen & Hall & Hfin).
  rewrite length_insert in Hlen.
  assert (Forall (fun w => 0 <= w.1 < Z.of_nat (length m)) W) as Hall'.
  { eapply Forall_impl; [exact Hall|]. intros w'; cbn beta; by rewrite length_insert. }
  split; [done|]. split; [by constructor|].
  intros k. rewrite Hfin. f_equal.
  case_decide as Hk.
  - subst k. apply list_lookup_insert_eq. lia.
  - by apply list_lookup_insert_ne.
Qed.

(** The stores of [W] either leave position [k] alone or decide what it
    holds, whatever it held before. *)
Lemma final_cases W k :
  (forall d, final W k d = d) \/ (forall d d', final W k d = final W k d').
Proof.
  induction W as [|w W IH]; [by left|].
  simpl. case_decide.
  - right. intros d d'. reflexivity.
  - destruct IH as [IH|IH]; [left|right]; intros; apply IH.
Qed.

Lemma final_idemp W k d : final W k (final W k d) = final W k d.
Proof.
  destruct (final_cases W k) as [H|H]; [by rewrite !H|apply H].
Qed.

Lemma final_untouched W k d :
  (forall w, w ∈ W -> Z.to_nat w.1 <> k) -> final W k d = d.
Proof.
  revert d. induction W as [|w W IH]; intros d HW; [done|].
  simpl. rewrite decide_False by (apply HW; by left).
  apply IH. intros w' Hw'. apply HW. by right.
Qed.

Lemma final_app W1 W2 k d : final (W1 ++ W2) k d = final W2 k (final W1 k d).
Proof. revert d. induction W1 as [|w W1 IH]; intros d; [done|]. apply IH. Qed.

Lemma final_unique W k v d :
  (exists w, w ∈ W /\ Z.to_nat w.1 = k) ->
  (forall w, w ∈ W -> Z.to_nat w.1 = k -> w.2 = v) ->
  final W k d = Some v.
Proof.
  induction W as [|w W IH] using rev_ind; intros [w0 [Hin Hk]] Huniq.
  { by apply elem_of_nil in Hin. }
  rewrite final_app. simpl. case_decide as Hw.
  - f_equal. apply Huniq; [|done]. apply elem_of_app. right. by left.
  - apply IH.
    + exists w0. split; [|done].
      apply elem_of_app in Hin as [Hin|Hin]; [done|].
      apply list_elem_of_singleton in Hin. by subst w0.
    + intros w' Hw'. apply Huniq. apply elem_of_app. by left.
Qed.

(** Running the same stores again changes nothing. *)
Lemma run_writes_idemp W (m m1 : mem) :
  run_writes W m = Done tt m1 -> run_writes W m1 = Done tt m1.
Proof.
  intros Hrun. destruct (run_writes_done _ _ _ Hrun) as (Hlen & Hall & Hfin).
  destruct (run_writes_in_bounds W m1) as [m2 Hrun2].
  { by rewrite Hlen. }
  rewrite Hrun2. f_equal. apply list_eq. intros k.
  destruct (run_writes_done _ _ _ Hrun2) as (_ & _ & Hfin2).
  by rewrite Hfin2, Hfin, final_idemp.
Qed.

(* ===================================================================== *)
(** ** The loops of [initialize_maze] *)
(* ===================================================================== *)

(** A [for] loop whose body is a sequence of stores is, given budget for
    every test of its condition, the sequence of the stores of its passes;
    the counter never leaves the range of [int] because it stops at a bound
    that is an [int]. *)
Lemma for_loop_writes (W : Z -> list (Z * maze_room)) (body : Z -> M unit)
    (bound : Z) :
  Int.in_range bound ->
  (forall k (m : mem), body k m = run_writes (W k) m) ->
  forall (fuel : nat) (i : Z) (m : mem),
    Int.min_int <= i ->
    (Z.to_nat (bound - i) < fuel)%nat ->
    for_loop fuel i bound body m = run_writes (seqZ i (bound - i) ≫= W) m.
Proof.
  intros Hb Hbody fuel.
  induction fuel as [|fuel IH]; intros i m Hi Hfuel; [lia|].
  simpl. destruct (Z.ltb_spec i bound) as [Hlt|Hge].
  - rewrite seqZ_cons by lia. rewrite bind_cons, run_writes_app.
    unfold bind. rewrite Hbody.
    destruct (run_writes (W i) m) as [[] m1| |]; [|done..].
    assert (Int.add i 1 = i + 1) as ->.
    { apply add_small. unfold Int.in_range, Int.min_int, Int.max_int in *. lia. }
    rewrite IH by lia.
    by replace (Z.succ i) with (i + 1) by lia;
       replace (Z.pred (bound - i)) with (bound - (i + 1)) by lia.
  - by rewrite seqZ_nil by lia.
Qed.

Lemma initialize_maze_writes (fuel : nat) (R C : Z) (m : mem) :
  Int.in_range R -> Int.in_range C -> enough fuel R C ->
  initialize_maze fuel R C m = run_writes (all_writes R C) m.
Proof.
  intros HR HC [HfR HfC]. unfold initialize_maze, all_writes.
  assert (Int.min_int <= 0) as H0 by (unfold Int.min_int; lia).
  rewrite (for_loop_writes (row_writes C) _ R HR); [by rewrite Z.sub_0_r | |done|lia].
  intros i m1. unfold row_writes.
  rewrite (for_loop_writes (fun j => [(i * C + j, fresh_room i j)]) _ C HC);
    [by rewrite Z.sub_0_r | |done|lia].
  intros j m2. simpl. by rewrite bind_ret_tt.
Qed.

Lemma elem_of_all_writes R C w :
  w ∈ all_writes R C <->
  exists i j, 0 <= i < R /\ 0 <= j < C /\ w = (i * C + j, fresh_room i j).
Proof.
  unfold all_writes, row_writes. rewrite list_elem_of_bind. split.
  - intros (i & Hw & Hi). apply list_elem_of_bind in Hw as (j & Hw & Hj).
    apply list_elem_of_singleton in Hw.
    apply elem_of_seqZ in Hi, Hj. exists i, j. repeat split; lia || done.
  - intros (i & j & Hi & Hj & ->). exists i. split.
    + apply list_elem_of_bind. exists j. split; [by apply list_elem_of_singleton|].
      apply elem_of_seqZ. lia.
    + apply elem_of_seqZ. lia.
Qed.

Lemma all_writes_empty R C : R <= 0 \/ C <= 0 -> all_writes R C = [].
Proof.
  intros H. destruct (all_writes R C) as [|w W] eqn:E; [done|].
  assert (w ∈ all_writes R C) as Hw by (rewrite E; by left).
  apply elem_of_all_writes in Hw as (i & j & Hi & Hj & _). lia.
Qed.

(** Row-major addresses of distinct positions are distinct. *)
Lemma row_major_inj C i j i' j' :
  0 <= j < C -> 0 <= j' < C -> 0 <= i -> 0 <= i' ->
  Z.to_nat (i * C + j) = Z.to_nat (i' * C + j') -> i = i' /\ j = j'.
Proof.
  intros Hj Hj' Hi Hi' Heq.
  assert (0 <= i * C) by nia. assert (0 <= i' * C) by nia.
  assert (i * C + j = i' * C + j') as Heq' by lia.
  destruct (Z.lt_trichotomy i i') as [Hlt|[->|Hgt]]; [nia|lia|nia].
Qed.

Lemma final_all_writes R C i j d :
  0 <= i < R -> 0 <= j < C ->
  final (all_writes R C) (Z.to_nat (i * C + j)) d = Some (fresh_room i j).
Proof.
  intros Hi Hj. apply final_unique.
  - exists (i * C + j, fresh_room i j). split; [|done].
    apply elem_of_all_writes. by exists i, j.
  - intros w Hw Hk.
    apply elem_of_all_writes in Hw as (i' & j' & Hi' & Hj' & ->).
    simpl in *. apply row_major_inj in Hk as [-> ->]; (done || lia).
Qed.

Lemma all_writes_in_bounds R C (m : mem) :
  R * C <= Z.of_nat (length m) ->
  Forall (fun w => 0 <= w.1 < Z.of_nat (length m)) (all_writes R C).
Proof.
  intros Hlen. apply Forall_forall. intros w Hw.
  apply elem_of_all_writes in Hw as (i & j & Hi & Hj & ->). simpl. nia.
Qed.

(** On a storage with room for R * C rooms the function completes and
    leaves, at every position of the grid, the room it builds for it. *)
Lemma initialize_maze_done (fuel : nat) (R C : Z) (m : mem) :
  Int.in_range R -> Int.in_range C -> enough fuel R C ->
  R * C <= Z.of_nat (length m) ->
  exists m',
    initialize_maze fuel R C m = Done tt m' /\
    length m' = length m /\
    forall i j, 0 <= i < R -> 0 <= j < C ->
      room_at C m' i j = Some (fresh_room i j).
Proof.
  intros HR HC Hfuel Hsize.
  rewrite initialize_maze_writes by done.
  destruct (run_writes_in_bounds (all_writes R C) m) as [m' Hrun].
  { by apply all_writes_in_bounds. }
  exists m'. split; [done|].
  destruct (run_writes_done _ _ _ Hrun) as (Hlen & _ & Hfin).
  split; [done|].
  intros i j Hi Hj. unfold room_at. rewrite Hfin. by apply final_all_writes.
Qed.

Lemma fresh_rooms_record_positions R C (m : mem) :
  (forall i j, 0 <= i < R -> 0 <= j < C ->
     room_at C m i j = Some (fresh_room i j)) ->
  records_positions R C m.
Proof. intros H i j Hi Hj. exists (fresh_room i j). by rewrite H. Qed.

(** C3. For all R >= 1 and C >= 1, [initialize_maze] run on a storage of
    R * C rooms completes, and then every cell (i, j) with 0 <= i < R and
    0 <= j < C holds a room with row = i, col = j, the four walls entries
    equal to -1 and visited = 0. *)
Theorem initialize_maze_correct (fuel : nat) (R C : Z) (m : mem) :
  Int.in_range R -> Int.in_range C -> 1 <= R -> 1 <= C ->
  grid_of_size R C m -> enough fuel R C ->
  exists m',
    initialize_maze fuel R C m = Done tt m' /\
    grid_of_size R C m' /\
    forall i j, 0 <= i < R -> 0 <= j < C ->
      exists rm, room_at C m' i j = Some rm /\
        row rm = i /\ col rm = j /\
        walls rm = [-1; -1; -1; -1] /\ visited rm = 0.
Proof.
  intros HR HC HR1 HC1 Hsize Hfuel. unfold grid_of_size in *.
  destruct (initialize_maze_done fuel R C m) as (m' & Hrun & Hlen & Hrooms);
    [done..|lia|].
  exists m'. split; [done|]. split; [by rewrite Hlen|].
  intros i j Hi Hj. exists (fresh_room i j). by rewrite Hrooms.
Qed.

(** C9. If num_rows <= 0 or num_cols <= 0, [initialize_maze] completes
    without a single store: the storage it leaves is the storage it was
    given, whatever that storage is. *)
Theorem initialize_maze_nonpositive (fuel : nat) (R C : Z) (m : mem) :
  Int.in_range R -> Int.in_range C -> enough fuel R C ->
  R <= 0 \/ C <= 0 ->
  initialize_maze fuel R C m = Done tt m.
Proof.
  intros HR HC Hfuel Hdim.
  rewrite initialize_maze_writes by done.
  by rewrite all_writes_empty.
Qed.

(** C10. [initialize_maze] is idempotent: for all dimensions, when a call
    completes and leaves a storage, a second call with the same dimensions
    on that storage completes and leaves it as it is. *)
Theorem initialize_maze_idempotent (fuel fuel' : nat) (R C : Z) (m m1 : mem) :
  Int.in_range R -> Int.in_range C ->
  enough fuel R C -> enough fuel' R C ->
  initialize_maze fuel R C m = Done tt m1 ->
  initialize_maze fuel' R C m1 = Done tt m1.
Proof.
  intros HR HC Hfuel Hfuel'.
  rewrite !initialize_maze_writes by done.
  apply run_writes_idemp.
Qed.

(** C8. Every operation terminates.  [is_in_range] is a total function with
    result 0 or 1; [get_neighbor] never exhausts a step budget, having no
    loop; and for every pair of [int] dimensions and every storage, the
    double loop of [initialize_maze] ends within max(num_rows, num_cols) + 1
    tests of each loop condition: with that budget or any larger one the
    run ends, in the same outcome, which is a final storage or an access
    outside the storage. *)
Theorem all_operations_terminate (R C : Z) (m : mem) :
  Int.in_range R -> Int.in_range C ->
  (forall row col, is_in_range row col R C = 0 \/ is_in_range row col R C = 1) /\
  (forall room dir, get_neighbor R C room dir m <> OutOfFuel) /\
  exists o : outcome unit,
    o <> OutOfFuel /\
    forall fuel, enough fuel R C -> initialize_maze fuel R C m = o.
Proof.
  intros HR HC. split; [|split].
  - intros. apply is_in_range_bool.
  - intros room dir.
    destruct (get_neighbor_outcome R C room dir m) as [H|[q H]]; by rewrite H.
  - exists (run_writes (all_writes R C) m). split.
    + apply run_writes_terminates.
    + intros fuel Hfuel. by apply initialize_maze_writes.
Qed.

(* ===================================================================== *)
(** ** Concrete scenarios *)
(* ===================================================================== *)

Lemma small_in_range z : 0 <= z <= 1000 -> Int.in_range z.
Proof. unfold Int.in_range, Int.min_int, Int.max_int. lia. Qed.

(** C5. On a 3 x 3 grid that [initialize_maze] has filled, [get_neighbor]
    from the room at (1,1) returns the room at (0,1) for North, (2,1) for
    South, (1,0) for West and (1,2) for East, and from the room at (0,0) it
    returns NULL for North and for West. *)
Theorem scenario_3x3 (fuel : nat) (m0 : mem) :
  length m0 = 9%nat -> enough fuel 3 3 ->
  exists m,
    initialize_maze fuel 3 3 m0 = Done tt m /\
    records_positions 3 3 m /\
    get_neighbor 3 3 (maze_at 3 1 1) NORTH m = Done (maze_at 3 0 1) m /\
    get_neighbor 3 3 (maze_at 3 1 1) SOUTH m = Done (maze_at 3 2 1) m /\
    get_neighbor 3 3 (maze_at 3 1 1) WEST m = Done (maze_at 3 1 0) m /\
    get_neighbor 3 3 (maze_at 3 1 1) EAST m = Done (maze_at 3 1 2) m /\
    get_neighbor 3 3 (maze_at 3 0 0) NORTH m = Done NULL m /\
    get_neighbor 3 3 (maze_at 3 0 0) WEST m = Done NULL m.
Proof.
  intros Hlen Hfuel.
  assert (Int.in_range 3) as H3 by (apply small_in_range; lia).
  destruct (initialize_maze_done fuel 3 3 m0) as (m & Hrun & _ & Hrooms);
    [done..|lia|].
  apply fresh_rooms_record_positions in Hrooms.
  exists m. split; [done|]. split; [done|].
  repeat split; by rewrite (get_neighbor_grid 3 3 m) by (done || lia).
Qed.

(** C6. On a 1 x 1 grid that [initialize_maze] has filled, [get_neighbor]
    from the single room at (0,0) returns NULL for each of North, South,
    West and East. *)
Theorem scenario_1x1 (fuel : nat) (m0 : mem) (dir : Direction) :
  length m0 = 1%nat -> enough fuel 1 1 ->
  exists m,
    initialize_maze fuel 1 1 m0 = Done tt m /\
    get_neighbor 1 1 (maze_at 1 0 0) dir m = Done NULL m.
Proof.
  intros Hlen Hfuel.
  assert (Int.in_range 1) as H1 by (apply small_in_range; lia).
  destruct (initialize_maze_done fuel 1 1 m0) as (m & Hrun & _ & Hrooms);
    [done..|lia|].
  apply fresh_rooms_record_positions in Hrooms.
  exists m. split; [done|].
  rewrite (get_neighbor_grid 1 1 m) by (done || lia). by destruct dir.
Qed.

(* ===================================================================== *)
(** ** The model at work on small inputs *)
(* ===================================================================== *)

Example is_in_range_inside : is_in_range 2 0 3 3 = 1.
Proof. reflexivity. Qed.

Example is_in_range_negative : is_in_range (-1) 0 3 3 = 0.
Proof. reflexivity. Qed.

Example is_in_range_empty_grid : is_in_range 0 0 0 (-4) = 0.
Proof. reflexivity. Qed.

Example initialize_2x2 :
  initialize_maze 3 2 2 [junk; junk; junk; junk] = Done tt grid2x2.
Proof. reflexivity. Qed.

Example initialize_2x2_short_budget :
  initialize_maze 2 2 2 [junk; junk; junk; junk] = OutOfFuel.
Proof. reflexivity. Qed.

Example initialize_2x2_short_storage :
  initialize_maze 3 2 2 [junk; junk; junk] = Fault.
Proof. reflexivity. Qed.

Example neighbor_south_2x2 :
  get_neighbor 2 2 (maze_at 2 0 1) SOUTH grid2x2 = Done (maze_at 2 1 1) grid2x2.
Proof. reflexivity. Qed.

Example neighbor_east_2x2_border :
  get_neighbor 2 2 (maze_at 2 0 1) EAST grid2x2 = Done NULL grid2x2.
Proof. reflexivity. Qed.

Example neighbor_of_null : get_neighbor 2 2 NULL EAST grid2x2 = Fault.
Proof. reflexivity. Qed.

Lemma grid2x2_records : records_positions 2 2 grid2x2.
Proof.
  intros i j Hi Hj.
  assert (i = 0 \/ i = 1) as [-> | ->] by lia;
    assert (j = 0 \/ j = 1) as [-> | ->] by lia;
    eexists; (split; [reflexivity|split; reflexivity]).
Qed.

Lemma in_range_2 : Int.in_range 2.
Proof. apply small_in_range. lia. Qed.

(* ===================================================================== *)
(** ** The theorems at concrete inputs *)
(* ===================================================================== *)

Lemma get_neighbor_correct_witness :
  records_positions 2 2 grid2x2 /\
  ((get_neighbor 2 2 (maze_at 2 0 0) SOUTH grid2x2 = Done NULL grid2x2 <->
      ~ inside 2 2 (spec_offset SOUTH 0 0)) /\
   (inside 2 2 (spec_offset SOUTH 0 0) ->
      get_neighbor 2 2 (maze_at 2 0 0) SOUTH grid2x2 =
        Done (maze_at 2 (spec_offset SOUTH 0 0).1 (spec_offset SOUTH 0 0).2)
          grid2x2 /\
      exists rm,
        room_at 2 grid2x2 (spec_offset SOUTH 0 0).1 (spec_offset SOUTH 0 0).2
          = Some rm /\
        row rm = (spec_offset SOUTH 0 0).1 /\
        col rm = (spec_offset SOUTH 0 0).2)).
Proof.
  split; [exact grid2x2_records|].
  apply (get_neighbor_correct 2 2 grid2x2 0 0 SOUTH);
    [exact in_range_2 | exact in_range_2 | reflexivity
    | exact grid2x2_records | lia | lia].
Defined.

Lemma get_neighbor_round_trip_witness :
  get_neighbor 2 2 (maze_at 2 0 0) SOUTH grid2x2 = Done (maze_at 2 1 0) grid2x2 /\
  get_neighbor 2 2 (maze_at 2 1 0) NORTH grid2x2 = Done (maze_at 2 0 0) grid2x2.
Proof.
  split; [reflexivity|].
  apply (get_neighbor_round_trip 2 2 grid2x2 0 0 SOUTH (maze_at 2 1 0));
    [exact in_range_2 | exact in_range_2 | reflexivity
    | exact grid2x2_records | lia | lia | reflexivity | discriminate].
Defined.

Lemma get_neighbor_pure_witness :
  get_neighbor 2 2 (maze_at 2 1 1) WEST grid2x2 = Done (maze_at 2 1 0) grid2x2 /\
  grid2x2 = grid2x2.
Proof.
  split; [reflexivity|].
  apply (get_neighbor_pure 2 2 (maze_at 2 1 1) WEST grid2x2 grid2x2
           (maze_at 2 1 0)).
  reflexivity.
Defined.

Lemma initialize_maze_correct_witness :
  exists m',
    initialize_maze 3 2 2 [junk; junk; junk; junk] = Done tt m' /\
    grid_of_size 2 2 m' /\
    forall i j, 0 <= i < 2 -> 0 <= j < 2 ->
      exists rm, room_at 2 m' i j = Some rm /\
        row rm = i /\ col rm = j /\
        walls rm = [-1; -1; -1; -1] /\ visited rm = 0.
Proof.
  apply (initialize_maze_correct 3 2 2 [junk; junk; junk; junk]);
    [exact in_range_2 | exact in_range_2 | lia | lia | reflexivity
    | split; simpl; lia].
Defined.

Lemma initialize_maze_nonpositive_witness :
  initialize_maze 6 0 5 [junk; junk] = Done tt [junk; junk] /\
  initialize_maze 6 5 (-1) [junk; junk] = Done tt [junk; junk].
Proof.
  split.
  - apply (initialize_maze_nonpositive 6 0 5 [junk; junk]);
      [apply small_in_range; lia | apply small_in_range; lia
      | split; simpl; lia | lia].
  - apply (initialize_maze_nonpositive 6 5 (-1) [junk; junk]);
      [apply small_in_range; lia
      | unfold Int.in_range, Int.min_int, Int.max_int; lia
      | split; simpl; lia | lia].
Defined.

Lemma initialize_maze_idempotent_witness :
  initialize_maze 3 2 2 [junk; junk; junk; junk] = Done tt grid2x2 /\
  initialize_maze 5 2 2 grid2x2 = Done tt grid2x2.
Proof.
  split; [reflexivity|].
  apply (initialize_maze_idempotent 3 5 2 2 [junk; junk; junk; junk] grid2x2);
    [exact in_range_2 | exact in_range_2 | split; simpl; lia
    | split; simpl; lia | reflexivity].
Defined.

Lemma all_operations_terminate_witness :
  (forall row col, is_in_range row col 2 2 = 0 \/ is_in_range row col 2 2 = 1) /\
  (forall room dir, get_neighbor 2 2 room dir [junk] <> OutOfFuel) /\
  exists o : outcome unit,
    o <> OutOfFuel /\
    forall fuel, enough fuel 2 2 -> initialize_maze fuel 2 2 [junk] = o.
Proof.
  apply (all_operations_terminate 2 2 [junk]); exact in_range_2.
Defined.

Lemma scenario_3x3_witness :
  exists m,
    initialize_maze 4 3 3 (replicate 9 junk) = Done tt m /\
    records_positions 3 3 m /\
    get_neighbor 3 3 (maze_at 3 1 1) NORTH m = Done (maze_at 3 0 1) m /\
    get_neighbor 3 3 (maze_at 3 1 1) SOUTH m = Done (maze_at 3 2 1) m /\
    get_neighbor 3 3 (maze_at 3 1 1) WEST m = Done (maze_at 3 1 0) m /\
    get_neighbor 3 3 (maze_at 3 1 1) EAST m = Done (maze_at 3 1 2) m /\
    get_neighbor 3 3 (maze_at 3 0 0) NORTH m = Done NULL m /\
    get_neighbor 3 3 (maze_at 3 0 0) WEST m = Done NULL m.
Proof.
  apply (scenario_3x3 4 (replicate 9 junk)); [reflexivity | split; simpl; lia].
Defined.

Lemma scenario_1x1_witness :
  exists m,
    initialize_maze 2 1 1 [junk] = Done tt m /\
    get_neighbor 1 1 (maze_at 1 0 0) EAST m = Done NULL m.
Proof.
  apply (scenario_1x1 2 [junk] EAST); [reflexivity | split; simpl; lia].
Defined.

(* ===================================================================== *)
(** ** Further properties of the neighbour lookup *)
(* ===================================================================== *)

(** A lookup that returns has read its room. *)
Lemma get_neighbor_done_inv num_rows num_cols room dir (m m' : mem) q :
  get_neighbor num_rows num_cols room dir m = Done q m' ->
  exists ofs rm, room = Cell ofs /\ 0 <= ofs /\ m !! Z.to_nat ofs = Some rm.
Proof.
  destruct room as [|ofs]; [by destruct dir|].
  destruct (Z.leb_spec 0 ofs) as [Hofs|Hofs].
  - destruct (m !! Z.to_nat ofs) as [rm|] eqn:Hrm; [by eauto|].
    destruct dir; unfold get_neighbor, bind, rd;
      (destruct (Z.leb_spec 0 ofs); [|lia]); by rewrite Hrm.
  - destruct dir; unfold get_neighbor, bind, rd;
      by (destruct (Z.leb_spec 0 ofs); [lia|]).
Qed.

Lemma cell_in_grid R C r c :
  0 <= r < R -> 0 <= c < C -> 0 <= r * C + c < R * C.
Proof. intros Hr Hc. nia. Qed.



(** X11. In a grid with no rooms (num_rows <= 0 or num_cols <= 0) every
    lookup that returns, returns NULL. *)
Theorem get_neighbor_empty_grid (num_rows num_cols : Z) (room : ptr)
    (dir : Direction) (m m' : mem) (q : ptr) :
  num_rows <= 0 \/ num_cols <= 0 ->
  get_neighbor num_rows num_cols room dir m = Done q m' -> q = NULL.
Proof.
  intros Hdim Hrun.
  destruct (get_neighbor_done_inv _ _ _ _ _ _ _ Hrun) as (ofs & rm & -> & Hofs & Hrm).
  rewrite (get_neighbor_some _ _ _ dir _ _ Hofs Hrm) in Hrun.
  destruct (is_in_range _ _ num_rows num_cols =? 1) eqn:E;
    injection Hrun as <- _; [|done].
  apply Z.eqb_eq, is_in_range_true in E. lia.
Qed.

(** A successful lookup from a position of a grid whose rooms record their
    positions leads to the cell one step away, which is inside the grid. *)
Lemma get_neighbor_grid_inv R C (m : mem) i j dir q :
  Int.in_range R -> Int.in_range C -> records_positions R C m ->
  0 <= i < R -> 0 <= j < C ->
  get_neighbor R C (maze_at C i j) dir m = Done q m -> q <> NULL ->
  inside R C (spec_offset dir i j) /\
  q = maze_at C (spec_offset dir i j).1 (spec_offset dir i j).2.
Proof.
  intros HR HC Hpos Hi Hj.
  rewrite (get_neighbor_grid R C m i j dir HR HC Hpos Hi Hj).
  pose proof (in_range_inside R C (spec_offset dir i j)) as Hin.
  destruct (is_in_range _ _ R C =? 1) eqn:E; intros [= <-] Hq; [|done].
  split; [by apply Hin|done].
Qed.

Lemma maze_at_inj C p p' R R' :
  inside R C p -> inside R' C p' ->
  maze_at C p.1 p.2 = maze_at C p'.1 p'.2 -> p = p'.
Proof.
  destruct p as [i j], p' as [i' j']. unfold inside, maze_at. simpl.
  intros [Hi Hj] [Hi' Hj'] [= Heq].
  destruct (row_major_inj C i j i' j') as [-> ->]; [lia..| |done].
  by rewrite Heq.
Qed.

Lemma get_neighbor_null_iff R C (m : mem) i j dir :
  Int.in_range R -> Int.in_range C -> records_positions R C m ->
  0 <= i < R -> 0 <= j < C ->
  get_neighbor R C (maze_at C i j) dir m = Done NULL m <->
  ~ inside R C (spec_offset dir i j).
Proof.
  intros HR HC Hpos Hi Hj.
  rewrite (get_neighbor_grid R C m i j dir HR HC Hpos Hi Hj).
  pose proof (in_range_inside R C (spec_offset dir i j)) as Hin.
  destruct (is_in_range _ _ R C =? 1) eqn:E.
  - split; [discriminate|]. intros Hout. destruct Hout. by apply Hin.
  - split; [|done]. intros _ Hins. apply Hin in Hins. discriminate.
Qed.

(** X3. The border of the maze, direction by direction: from the room at
    (i, j) of a grid whose rooms record their positions, the lookup returns
    NULL to the North exactly in row 0, to the South exactly in the last
    row, to the West exactly in column 0 and to the East exactly in the last
    column. *)
Theorem get_neighbor_border (R C : Z) (m : mem) (i j : Z) :
  Int.in_range R -> Int.in_range C -> records_positions R C m ->
  0 <= i < R -> 0 <= j < C ->
  (get_neighbor R C (maze_at C i j) NORTH m = Done NULL m <-> i = 0) /\
  (get_neighbor R C (maze_at C i j) SOUTH m = Done NULL m <-> i = R - 1) /\
  (get_neighbor R C (maze_at C i j) WEST m = Done NULL m <-> j = 0) /\
  (get_neighbor R C (maze_at C i j) EAST m = Done NULL m <-> j = C - 1).
Proof.
  intros HR HC Hpos Hi Hj.
  rewrite !(get_neighbor_null_iff R C m i j _ HR HC Hpos Hi Hj).
  unfold inside. simpl. lia.
Qed.

Lemma spec_offset_moves dir i j : spec_offset dir i j <> (i, j).
Proof. destruct dir; simpl; intros [=]; lia. Qed.

Lemma spec_offset_dir_inj d1 d2 i j :
  spec_offset d1 i j = spec_offset d2 i j -> d1 = d2.
Proof. destruct d1, d2; simpl; intros [=]; (done || lia). Qed.

Lemma spec_offset_pos_inj dir i j i' j' :
  spec_offset dir i j = spec_offset dir i' j' -> i = i' /\ j = j'.
Proof. destruct dir; simpl; intros [=]; lia. Qed.

(** X4. No room is its own neighbour: from a room of a grid whose rooms
    record their positions, [get_neighbor] never returns the address of
    that same room. *)
Theorem get_neighbor_not_self (R C : Z) (m : mem) (i j : Z) (dir : Direction)
    (q : ptr) :
  Int.in_range R -> Int.in_range C -> records_positions R C m ->
  0 <= i < R -> 0 <= j < C ->
  get_neighbor R C (maze_at C i j) dir m = Done q m ->
  q <> maze_at C i j.
Proof.
  intros HR HC Hpos Hi Hj Hrun Heq.
  destruct (get_neighbor_grid_inv R C m i j dir q) as [Hins Hq];
    [done..|by rewrite Heq|].
  rewrite Heq in Hq.
  apply (maze_at_inj C (i, j) (spec_offset dir i j) R R) in Hq; [|done..].
  by apply (spec_offset_moves dir i j).
Qed.

(** X5. Different directions lead to different rooms: if the lookups from
    one room of a grid whose rooms record their positions return the same
    room in two directions, the two directions are the same. *)
Theorem get_neighbor_direction_inj (R C : Z) (m : mem) (i j : Z)
    (d1 d2 : Direction) (q : ptr) :
  Int.in_range R -> Int.in_range C -> records_positions R C m ->
  0 <= i < R -> 0 <= j < C ->
  get_neighbor R C (maze_at C i j) d1 m = Done q m ->
  get_neighbor R C (maze_at C i j) d2 m = Done q m ->
  q <> NULL ->
  d1 = d2.
Proof.
  intros HR HC Hpos Hi Hj Hrun1 Hrun2 Hq.
  destruct (get_neighbor_grid_inv R C m i j d1 q) as [Hins1 Hq1]; [done..|].
  destruct (get_neighbor_grid_inv R C m i j d2 q) as [Hins2 Hq2]; [done..|].
  rewrite Hq1 in Hq2.
  apply (maze_at_inj C _ _ R R) in Hq2; [|done..].
  by apply (spec_offset_dir_inj d1 d2 i j).
Qed.

(** X6. Different rooms have different neighbours in a given direction: if
    the lookups from two rooms of a grid whose rooms record their positions
    return the same room in the same direction, the two rooms are the
    same. *)
Theorem get_neighbor_room_inj (R C : Z) (m : mem) (i j i' j' : Z)
    (dir : Direction) (q : ptr) :
  Int.in_range R -> Int.in_range C -> records_positions R C m ->
  0 <= i < R -> 0 <= j < C -> 0 <= i' < R -> 0 <= j' < C ->
  get_neighbor R C (maze_at C i j) dir m = Done q m ->
  get_neighbor R C (maze_at C i' j') dir m = Done q m ->
  q <> NULL ->
  i = i' /\ j = j'.
Proof.
  intros HR HC Hpos Hi Hj Hi' Hj' Hrun1 Hrun2 Hq.
  destruct (get_neighbor_grid_inv R C m i j dir q) as [Hins1 Hq1]; [done..|].
  destruct (get_neighbor_grid_inv R C m i' j' dir q) as [Hins2 Hq2]; [done..|].
  rewrite Hq1 in Hq2.
  apply (maze_at_inj C _ _ R R) in Hq2; [|done..].
  by apply (spec_offset_pos_inj dir).
Qed.

(* ===================================================================== *)
(** ** Further properties of the initialisation *)
(* ===================================================================== *)

(** Whenever the function completes, every position of the grid holds the
    room built for it. *)
Lemma initialize_maze_rooms (fuel : nat) (R C : Z) (m0 m : mem) :
  Int.in_range R -> Int.in_range C -> enough fuel R C ->
  initialize_maze fuel R C m0 = Done tt m ->
  forall i j, 0 <= i < R -> 0 <= j < C ->
    room_at C m i j = Some (fresh_room i j).
Proof.
  intros HR HC Hfuel. rewrite initialize_maze_writes by done. intros Hrun.
  destruct (run_writes_done _ _ _ Hrun) as (_ & _ & Hfin).
  intros i j Hi Hj. unfold room_at. rewrite Hfin. by apply final_all_writes.
Qed.

(** X7. [initialize_maze] writes the first num_rows * num_cols rooms of the
    storage and nothing else: on a storage with at least that many rooms it
    completes, keeps the number of rooms, and leaves every room from index
    num_rows * num_cols on as it was. *)
Theorem initialize_maze_frame (fuel : nat) (R C : Z) (m : mem) :
  Int.in_range R -> Int.in_range C -> enough fuel R C ->
  R * C <= Z.of_nat (length m) ->
  exists m',
    initialize_maze fuel R C m = Done tt m' /\
    length m' = length m /\
    forall k : nat, R * C <= Z.of_nat k -> m' !! k = m !! k.
Proof.
  intros HR HC Hfuel Hsize.
  rewrite initialize_maze_writes by done.
  destruct (run_writes_in_bounds (all_writes R C) m) as [m' Hrun].
  { by apply all_writes_in_bounds. }
  exists m'. split; [done|].
  destruct (run_writes_done _ _ _ Hrun) as (Hlen & _ & Hfin).
  split; [done|].
  intros k Hk. rewrite Hfin. apply final_untouched.
  intros w Hw. apply elem_of_all_writes in Hw as (i & j & Hi & Hj & ->).
  simpl. pose proof (cell_in_grid R C i j Hi Hj). lia.
Qed.

(** Every index below R * C is the row-major address of a position. *)
Lemma index_position R C (k : nat) :
  0 <= R -> 0 <= C -> Z.of_nat k < R * C ->
  exists i j, 0 <= i < R /\ 0 <= j < C /\ Z.to_nat (i * C + j) = k.
Proof.
  intros HR HC Hk. assert (0 < C) as HC' by nia.
  exists (Z.of_nat k / C), (Z.of_nat k mod C).
  pose proof (Z.div_mod (Z.of_nat k) C ltac:(lia)) as Hdm.
  pose proof (Z.mod_pos_bound (Z.of_nat k) C HC') as Hmod.
  assert (0 <= Z.of_nat k / C) as Hdiv by (apply Z.div_pos; lia).
  assert (Z.of_nat k / C < R) as Hlt.
  { apply Z.div_lt_upper_bound; [done|nia]. }
  repeat split; try lia.
Qed.

(** X8. The grid [initialize_maze] leaves does not depend on what the
    storage held: run on any two storages of exactly num_rows * num_cols
    rooms, it completes on both and leaves the same grid; in particular a
    grid whose walls and visited flags were changed is reset. *)
Theorem initialize_maze_forgets (fuel : nat) (R C : Z) (m1 m2 : mem) :
  Int.in_range R -> Int.in_range C -> 0 <= R -> 0 <= C ->
  enough fuel R C ->
  grid_of_size R C m1 -> grid_of_size R C m2 ->
  exists g,
    initialize_maze fuel R C m1 = Done tt g /\
    initialize_maze fuel R C m2 = Done tt g.
Proof.
  intros HR HC HR0 HC0 Hfuel Hs1 Hs2. unfold grid_of_size in *.
  destruct (initialize_maze_done fuel R C m1) as (g1 & Hrun1 & Hlen1 & Hg1);
    [done..|lia|].
  destruct (initialize_maze_done fuel R C m2) as (g2 & Hrun2 & Hlen2 & Hg2);
    [done..|lia|].
  exists g1. split; [done|]. rewrite Hrun2. f_equal.
  apply list_eq. intros k.
  destruct (decide (Z.of_nat k < R * C)) as [Hk|Hk].
  - destruct (index_position R C k) as (i & j & Hi & Hj & <-); [done..|].
    unfold room_at in *. by rewrite Hg1, Hg2.
  - rewrite !(proj2 (lookup_ge_None _ _)); [done|lia..].
Qed.

(** X9. [initialize_maze] does not check the storage it is given: for
    dimensions num_rows, num_cols >= 1 it completes when the storage has at
    least num_rows * num_cols rooms, and stores outside the storage when it
    has fewer. *)
Theorem initialize_maze_needs_storage (fuel : nat) (R C : Z) (m : mem) :
  Int.in_range R -> Int.in_range C -> 1 <= R -> 1 <= C ->
  enough fuel R C ->
  (R * C <= Z.of_nat (length m) ->
     exists m', initialize_maze fuel R C m = Done tt m') /\
  (Z.of_nat (length m) < R * C -> initialize_maze fuel R C m = Fault).
Proof.
  intros HR HC HR1 HC1 Hfuel. split.
  - intros Hsize.
    destruct (initialize_maze_done fuel R C m) as (m' & Hrun & _); by eauto.
  - intros Hsize. rewrite initialize_maze_writes by done.
    pose proof (run_writes_terminates (all_writes R C) m) as Hterm.
    destruct (run_writes (all_writes R C) m) as [[] m'| |] eqn:Hrun; [|done..].
    destruct (run_writes_done _ _ _ Hrun) as (_ & Hall & _).
    rewrite Forall_forall in Hall.
    specialize (Hall ((R - 1) * C + (C - 1), fresh_room (R - 1) (C - 1))).
    simpl in Hall. destruct Hall; [|nia].
    apply elem_of_all_writes. exists (R - 1), (C - 1). repeat split; lia.
Qed.

(** X10. Initialisation followed by a lookup: for all dimensions, on a
    storage where [initialize_maze] completes, a lookup from any position
    (i, j) of the grid in the initialised storage returns NULL exactly when
    the coordinate one step away is outside the grid, and otherwise the
    address of the cell at that coordinate; the storage stays as the
    initialisation left it. *)
Theorem initialize_then_get_neighbor (fuel : nat) (R C : Z) (m0 m : mem)
    (i j : Z) (dir : Direction) :
  Int.in_range R -> Int.in_range C -> enough fuel R C ->
  initialize_maze fuel R C m0 = Done tt m ->
  0 <= i < R -> 0 <= j < C ->
  exists q,
    (initialize_maze fuel R C ;;; get_neighbor R C (maze_at C i j) dir) m0
      = Done q m /\
    (q = NULL <-> ~ inside R C (spec_offset dir i j)) /\
    (inside R C (spec_offset dir i j) ->
       q = maze_at C (spec_offset dir i j).1 (spec_offset dir i j).2).
Proof.
  intros HR HC Hfuel Hinit Hi Hj.
  pose proof (initialize_maze_rooms fuel R C m0 m HR HC Hfuel Hinit) as Hrooms.
  apply fresh_rooms_record_positions in Hrooms.
  unfold bind. rewrite Hinit.
  rewrite (get_neighbor_grid R C m i j dir HR HC Hrooms Hi Hj).
  pose proof (in_range_inside R C (spec_offset dir i j)) as Hin.
  eexists. split; [reflexivity|].
  destruct (is_in_range _ _ R C =? 1) eqn:E.
  - assert (inside R C (spec_offset dir i j)) by by apply Hin.
    split; [split; [discriminate|done]|done].
  - assert (~ inside R C (spec_offset dir i j)) as Hout.
    { intros Hins. apply Hin in Hins. discriminate. }
    split; [done|]. intros Hins. by destruct Hout.
Qed.

(* ===================================================================== *)
(** ** The further properties at concrete inputs *)
(* ===================================================================== *)



Lemma get_neighbor_empty_grid_witness :
  get_neighbor 0 3 (Cell 0) EAST [fresh_room 0 0] = Done NULL [fresh_room 0 0] /\
  NULL = NULL.
Proof.
  split; [reflexivity|].
  apply (get_neighbor_empty_grid 0 3 (Cell 0) EAST [fresh_room 0 0]
           [fresh_room 0 0] NULL); [lia | reflexivity].
Defined.

Lemma get_neighbor_border_witness :
  (get_neighbor 2 2 (maze_at 2 0 1) NORTH grid2x2 = Done NULL grid2x2 <-> 0 = 0) /\
  (get_neighbor 2 2 (maze_at 2 0 1) SOUTH grid2x2 = Done NULL grid2x2 <-> 0 = 2 - 1) /\
  (get_neighbor 2 2 (maze_at 2 0 1) WEST grid2x2 = Done NULL grid2x2 <-> 1 = 0) /\
  (get_neighbor 2 2 (maze_at 2 0 1) EAST grid2x2 = Done NULL grid2x2 <-> 1 = 2 - 1).
Proof.
  apply (get_neighbor_border 2 2 grid2x2 0 1);
    [exact in_range_2 | exact in_range_2 | exact grid2x2_records | lia | lia].
Defined.

Lemma get_neighbor_not_self_witness :
  get_neighbor 2 2 (maze_at 2 0 0) SOUTH grid2x2 = Done (maze_at 2 1 0) grid2x2 /\
  maze_at 2 1 0 <> maze_at 2 0 0.
Proof.
  split; [reflexivity|].
  apply (get_neighbor_not_self 2 2 grid2x2 0 0 SOUTH (maze_at 2 1 0));
    [exact in_range_2 | exact in_range_2 | exact grid2x2_records | lia | lia
    | reflexivity].
Defined.

Lemma get_neighbor_direction_inj_witness :
  get_neighbor 2 2 (maze_at 2 0 0) EAST grid2x2 = Done (maze_at 2 0 1) grid2x2 /\
  EAST = EAST.
Proof.
  split; [reflexivity|].
  apply (get_neighbor_direction_inj 2 2 grid2x2 0 0 EAST EAST (maze_at 2 0 1));
    [exact in_range_2 | exact in_range_2 | exact grid2x2_records | lia | lia
    | reflexivity | reflexivity | discriminate].
Defined.

Lemma get_neighbor_room_inj_witness :
  get_neighbor 2 2 (maze_at 2 1 1) NORTH grid2x2 = Done (maze_at 2 0 1) grid2x2 /\
  1 = 1 /\ 1 = 1.
Proof.
  split; [reflexivity|].
  apply (get_neighbor_room_inj 2 2 grid2x2 1 1 1 1 NORTH (maze_at 2 0 1));
    [exact in_range_2 | exact in_range_2 | exact grid2x2_records
    | lia | lia | lia | lia | reflexivity | reflexivity | discriminate].
Defined.

Lemma initialize_maze_frame_witness :
  exists m',
    initialize_maze 3 2 2 [junk; junk; junk; junk; junk; junk] = Done tt m' /\
    length m' = length [junk; junk; junk; junk; junk; junk] /\
    forall k : nat, 2 * 2 <= Z.of_nat k ->
      m' !! k = [junk; junk; junk; junk; junk; junk] !! k.
Proof.
  apply (initialize_maze_frame 3 2 2 [junk; junk; junk; junk; junk; junk]);
    [exact in_range_2 | exact in_range_2 | split; simpl; lia | simpl; lia].
Defined.

Lemma initialize_maze_forgets_witness :
  exists g,
    initialize_maze 3 2 2 [junk; junk; junk; junk] = Done tt g /\
    initialize_maze 3 2 2 [fresh_room 0 0; junk; fresh_room 1 1; junk]
      = Done tt g.
Proof.
  apply (initialize_maze_forgets 3 2 2 [junk; junk; junk; junk]
           [fresh_room 0 0; junk; fresh_room 1 1; junk]);
    [exact in_range_2 | exact in_range_2 | lia | lia | split; simpl; lia
    | reflexivity | reflexivity].
Defined.

Lemma initialize_maze_needs_storage_witness :
  (2 * 2 <= Z.of_nat (length [junk; junk; junk]) ->
     exists m', initialize_maze 3 2 2 [junk; junk; junk] = Done tt m') /\
  (Z.of_nat (length [junk; junk; junk]) < 2 * 2 ->
     initialize_maze 3 2 2 [junk; junk; junk] = Fault).
Proof.
  apply (initialize_maze_needs_storage 3 2 2 [junk; junk; junk]);
    [exact in_range_2 | exact in_range_2 | lia | lia | split; simpl; lia].
Defined.

Lemma initialize_then_get_neighbor_witness :
  exists q,
    (initialize_maze 3 2 2 ;;; get_neighbor 2 2 (maze_at 2 0 0) SOUTH)
      [junk; junk; junk; junk] = Done q grid2x2 /\
    (q = NULL <-> ~ inside 2 2 (spec_offset SOUTH 0 0)) /\
    (inside 2 2 (spec_offset SOUTH 0 0) ->
       q = maze_at 2 (spec_offset SOUTH 0 0).1 (spec_offset SOUTH 0 0).2).
Proof.
  apply (initialize_then_get_neighbor 3 2 2 [junk; junk; junk; junk] grid2x2
           0 0 SOUTH);
    [exact in_range_2 | exact in_range_2 | split; simpl; lia | reflexivity
    | lia | lia].
Defined.
